(** * The filter-surrounded-by-spaces rule of ansible-lint

    A shallow embedding of
    [src/ansiblelint/rules/filter_surrounded_by_spaces.py]:
    the single-string check [string_violates_rule], the recursive walk
    [container_violates_rule] and the rule class' [matchtask].

    Python raises where an index is out of range, so every function that
    indexes a string returns in the error monad [result]. *)

From Stdlib Require Import List String Ascii ZArith NArith Bool Lia Permutation.
Import ListNotations.
Local Open Scope string_scope.
Local Open Scope list_scope.
Local Open Scope Z_scope.

(** ** Exceptions and the error monad *)

Module Py.

(** The one exception the module can raise: [text[i]] out of range. *)
Inductive exn : Set := IndexError.

Inductive result (A : Type) : Type :=
| Return (a : A)
| Raise (e : exn).

Arguments Return {A} a.
Arguments Raise {A} e.

Definition bind {A B : Type} (m : result A) (k : A -> result B) : result B :=
  match m with
  | Return a => k a
  | Raise e => Raise e
  end.

End Py.

Import Py.

Declare Scope py_scope.
Delimit Scope py_scope with py.
Notation "x <- m ;; k" := (bind m (fun x => k))
  (at level 61, m at next level, right associativity) : py_scope.
Local Open Scope py_scope.

(** ** Strings *)

(** A Python [str] is a sequence of Unicode code points. *)
Definition codepoint : Set := N.
Definition str : Set := list codepoint.

(** The code points of a literal whose characters are below U+0100. *)
Definition py_str (s : string) : str :=
  List.map N_of_ascii (list_ascii_of_string s).

(** ["|"] is U+007C. *)
Definition pipe : codepoint := 124%N.

(** [len(text)]. *)
Definition len (text : str) : Z := Z.of_nat (List.length text).

(** [c.isspace()] for a one-character string: CPython's
    [_PyUnicode_IsWhitespace]. *)
Definition isspace (c : codepoint) : bool :=
  ((0x9 <=? c) && (c <=? 0xD) ||
   (0x1C <=? c) && (c <=? 0x20) ||
   (c =? 0x85) || (c =? 0xA0) || (c =? 0x1680) ||
   (0x2000 <=? c) && (c <=? 0x200A) ||
   (c =? 0x2028) || (c =? 0x2029) || (c =? 0x202F) || (c =? 0x205F) ||
   (c =? 0x3000))%N.

(** [text[i]]: a negative index counts from the end; an index outside
    [-len(text) .. len(text) - 1] raises [IndexError]. *)
Definition getitem (text : str) (i : Z) : result codepoint :=
  let j := if i <? 0 then i + len text else i in
  if (j <? 0) || (len text <=? j) then Raise IndexError
  else match nth_error text (Z.to_nat j) with
       | Some c => Return c
       | None => Raise IndexError
       end.

(** ** The string checker *)

(** [not text[i].isspace()] *)
Definition not_space_at (text : str) (i : Z) : result bool :=
  c <- getitem text i ;; Return (negb (isspace c)).

(** [a and b], with [a] a pure test: [b] is evaluated only when [a] holds. *)
Definition py_and (a : bool) (b : result bool) : result bool :=
  if a then b else Return false.

(** [a or b]: [b] is evaluated only when [a] is false. *)
Definition py_or (a b : result bool) : result bool :=
  x <- a ;; if x then Return true else b.

(** The body of [for idx, chr in enumerate(text)], from position [idx] on;
    [rest] is what is left of [text] to enumerate. *)
Fixpoint scan_from (text : str) (idx : Z) (rest : str) : result bool :=
  match rest with
  | [] => Return false
  | chr :: rest' =>
      if negb (chr =? pipe)%N then scan_from text (idx + 1) rest'
      else
        c1 <- py_and (idx =? 0) (not_space_at text (idx + 1)) ;;
        if c1 then Return true
        else
          c2 <- py_and (idx =? len text - 1) (not_space_at text (idx - 1)) ;;
          if c2 then Return true
          else
            c3 <- py_or (not_space_at text (idx - 1))
                        (not_space_at text (idx + 1)) ;;
            if c3 then Return true
            else scan_from text (idx + 1) rest'
  end.

Definition string_violates_rule (text : str) : result bool :=
  if len text <? 2 then Return false
  else scan_from text 0 text.

(** ** Scanned values *)

(** What is neither [str], [list] nor [dict] (nor an instance of a
    subclass of one of them): [None], booleans, integers, and any other
    object, of which the walk reads nothing but its type. *)
Inductive other : Set :=
| PyNone
| PyBool (b : bool)
| PyInt (z : Z)
| PyObject (type_name : string).

(** Dictionary keys: any hashable object. *)
Inductive key : Set :=
| KStr (s : str)
| KOther (o : other).

Unset Elimination Schemes.

Inductive value : Set :=
| Text (s : str)
| Sequence (l : list value)
| Mapping (d : list (key * value))
| Other (o : other).

Set Elimination Schemes.

(** ** The container walker *)

(** [any(True for x in xs if f(x))]: the generator is consumed lazily, so
    the walk stops at the first element on which [f] is true, and an
    exception raised by [f] before that point propagates. *)
Fixpoint container_violates_rule (container : value) : result bool :=
  match container with
  | Text s => string_violates_rule s
  | Sequence l =>
      (fix any_elem (l : list value) : result bool :=
         match l with
         | [] => Return false
         | elem :: l' =>
             b <- container_violates_rule elem ;;
             if b then Return true else any_elem l'
         end) l
  | Mapping d =>
      (fix any_item (d : list (key * value)) : result bool :=
         match d with
         | [] => Return false
         | (_, v) :: d' =>
             b <- container_violates_rule v ;;
             if b then Return true else any_item d'
         end) d
  | Other _ => Return false
  end.

(** The two generators, named. *)
Fixpoint any_elem (l : list value) : result bool :=
  match l with
  | [] => Return false
  | elem :: l' =>
      b <- container_violates_rule elem ;;
      if b then Return true else any_elem l'
  end.

Fixpoint any_item (d : list (key * value)) : result bool :=
  match d with
  | [] => Return false
  | (_, v) :: d' =>
      b <- container_violates_rule v ;;
      if b then Return true else any_item d'
  end.

(** ** The rule adapter *)

Record FilterSurroundedBySpacesRule : Set := {
  id : string;
  description : string;
  severity : string;
  tags : list string;
  version_added : string
}.

Definition the_rule : FilterSurroundedBySpacesRule := {|
  id := "filter-surrounded-by-spaces";
  description := "
All filters should have be surrounded by spaces for readability like following:
```
- ansible_facts.network_resources.bfd_interfaces | symmetric_difference(result.after) | length
```

The following will trigger the rule because spaces do not surround `|`.
```
- ansible_facts.network_resources.bfd_interfaces|symmetric_difference(result.after)|length
```
    ";
  severity := "MEDIUM";
  tags := ["experimental"; "idiom"];
  version_added := "v6.2.1"
|}.

(** [matchtask(self, task, file=None)]; [Lintable] belongs to the host
    linter and stays abstract. *)
Definition matchtask {Lintable : Type} (self : FilterSurroundedBySpacesRule)
    (task : list (key * value)) (file : option Lintable) : result bool :=
  container_violates_rule (Mapping task).

(** ** Auxiliary notions for the statements *)

(** The reachable [Text] leaves of a value, in the order the walk meets
    them: through sequence elements and mapping values, never keys. *)
Fixpoint leaves (v : value) : list str :=
  match v with
  | Text s => [s]
  | Sequence l => flat_map leaves l
  | Mapping d => flat_map (fun kv => match kv with (_, e) => leaves e end) d
  | Other _ => []
  end.

(** The verdict of the string checker on a string where it returns. *)
Definition verdict (text : str) : bool :=
  match string_violates_rule text with
  | Return b => b
  | Raise _ => false
  end.

(** The string checker returns on [text] (it does not raise). *)
Definition returns (text : str) : Prop :=
  exists b, string_violates_rule text = Return b.

Definition is_other (v : value) : bool :=
  match v with
  | Other _ => true
  | _ => false
  end.

(** [prune v] drops, at every depth, the sequence elements and the mapping
    entries whose value is an [Other]. *)
Fixpoint prune (v : value) : value :=
  match v with
  | Sequence l =>
      Sequence (filter (fun e => negb (is_other e)) (List.map prune l))
  | Mapping d =>
      Mapping (filter (fun kv => negb (is_other (snd kv)))
                 (List.map (fun kv => match kv with (k, e) => (k, prune e) end) d))
  | _ => v
  end.

(** Induction on values, with the hypothesis on every element of a
    sequence and on every value of a mapping. *)
Section ValueInduction.

Variable P : value -> Prop.
Hypothesis P_text : forall s, P (Text s).
Hypothesis P_sequence : forall l, Forall P l -> P (Sequence l).
Hypothesis P_mapping :
  forall d, Forall (fun kv => P (snd kv)) d -> P (Mapping d).
Hypothesis P_other : forall o, P (Other o).

Fixpoint value_ind (v : value) : P v :=
  match v with
  | Text s => P_text s
  | Sequence l =>
      P_sequence l
        ((fix elems (l : list value) : Forall P l :=
            match l with
            | [] => Forall_nil P
            | e :: l' => Forall_cons e (value_ind e) (elems l')
            end) l)
  | Mapping d =>
      P_mapping d
        ((fix items (d : list (key * value))
            : Forall (fun kv => P (snd kv)) d :=
            match d with
            | [] => Forall_nil _
            | kv :: d' =>
                Forall_cons (P := fun kv => P (snd kv)) kv
                  (value_ind (snd kv)) (items d')
            end) d)
  | Other o => P_other o
  end.

End ValueInduction.

(** ** What the checker reads around a ["|"] *)

(** For the ["|"] that follows [pre] in [text], the character the checker
    reads as [text[idx - 1]]: the last character of [pre], or, for a
    ["|"] at position 0, the last character of [text]. *)
Definition before (text pre : str) : codepoint := last pre (last text 0%N).

(** The ["|"] between [pre] and [post] has whitespace on the side the
    checker reads as "before" and a whitespace character after it. *)
Definition surrounded (text pre post : str) : bool :=
  isspace (before text pre) &&
  match post with
  | n :: _ => isspace n
  | [] => false
  end.

(** One of the characters the checker reads around the ["|"] between
    [pre] and [post] exists and is not whitespace. *)
Definition offending (text pre post : str) : bool :=
  negb (isspace (before text pre)) ||
  match post with
  | n :: _ => negb (isspace n)
  | [] => false
  end.

(** Every ["|"] of [text] is surrounded. *)
Definition every_pipe_surrounded (text : str) : Prop :=
  forall pre post, text = pre ++ pipe :: post -> surrounded text pre post = true.

(** Some ["|"] of [text] is offending. *)
Definition some_pipe_offending (text : str) : Prop :=
  exists pre post, text = pre ++ pipe :: post /\ offending text pre post = true.

(** The same, for the ["|"] characters of a suffix [rest] of [text] that
    comes after [pre]. *)
Definition all_surrounded (text pre rest : str) : Prop :=
  forall a b, rest = a ++ pipe :: b -> surrounded text (pre ++ a) b = true.

Definition one_offending (text pre rest : str) : Prop :=
  exists a b, rest = a ++ pipe :: b /\ offending text (pre ++ a) b = true.

Definition none_offending (text pre rest : str) : Prop :=
  forall a b, rest = a ++ pipe :: b -> offending text (pre ++ a) b = false.

Definition ends_in_spaced_pipe (text pre rest : str) : Prop :=
  exists a, rest = a ++ [pipe] /\ isspace (before text (pre ++ a)) = true.

(** ** Sample values *)

Definition nested_scalars : value :=
  Sequence [Other PyNone;
            Other (PyObject "float");
            Mapping [(KStr (py_str "retries"), Other (PyInt 3));
                     (KOther (PyBool true), Sequence [Other (PyBool false)])]].

Definition task_spaced_keys : list (key * value) :=
  [(KStr (py_str "msg"), Text (py_str "{{ item | list }}"));
   (KStr (py_str "loop"), Other (PyInt 2))].

Definition task_unspaced_keys : list (key * value) :=
  [(KStr (py_str "a|b"), Text (py_str "{{ item | list }}"));
   (KStr (py_str "|"), Other (PyInt 2))].

(** Tasks of the playbooks in the rule's own tests. *)
Definition register_task : list (key * value) :=
  [(KStr (py_str "name"),
    Text (py_str "Register a file content as a variable"));
   (KStr (py_str "ansible.builtin.shell"),
    Text (py_str "cat /some/path/to/multidoc-file.yaml"));
   (KStr (py_str "register"), Text (py_str "result"))].

Definition bad_msg : list (key * value) :=
  [(KStr (py_str "name"), Text (py_str "Bad msg"));
   (KStr (py_str "ansible.builtin.debug"),
    Mapping [(KStr (py_str "msg"), Text (py_str "{{ item|list }}"))]);
   (KStr (py_str "loop"),
    Text (py_str "{{ result.stdout | from_yaml_all | list }}"))].

(** [all(c != "|" for c in text)], to settle [~ In pipe text] by
    computation. *)
Definition pipe_free (text : str) : bool :=
  forallb (fun c => negb (c =? pipe)%N) text.

(** ** Sanity checks on the examples of the rule's description *)

Example ex_a_pipe : string_violates_rule (py_str "a|") = Return true.
Proof. reflexivity. Qed.

Example ex_pipe_b : string_violates_rule (py_str "|b") = Return true.
Proof. reflexivity. Qed.

Example ex_a_sp_pipe_b : string_violates_rule (py_str "a |b") = Return true.
Proof. reflexivity. Qed.

Example ex_a_pipe_sp_b : string_violates_rule (py_str "a| b") = Return true.
Proof. reflexivity. Qed.

Example ex_spaced : string_violates_rule (py_str "a | b") = Return false.
Proof. reflexivity. Qed.

(** ** Facts about the error monad and indexing *)

Lemma bind_return {A B : Type} (a : A) (k : A -> result B) :
  bind (Return a) k = k a.
Proof. reflexivity. Qed.

Lemma bind_raise {A B : Type} (e : exn) (k : A -> result B) :
  bind (Raise e) k = Raise e.
Proof. reflexivity. Qed.

Lemma len_app (a b : str) : len (a ++ b) = len a + len b.
Proof. unfold len. rewrite length_app. lia. Qed.

Lemma len_cons (c : codepoint) (t : str) : len (c :: t) = 1 + len t.
Proof. unfold len. simpl List.length. lia. Qed.

Lemma len_nonneg (t : str) : 0 <= len t.
Proof. unfold len. lia. Qed.

(** A position inside the string reads the character stored there. *)
Lemma getitem_inside (pre post : str) (c : codepoint) :
  getitem (pre ++ c :: post) (len pre) = Return c.
Proof.
  unfold getitem.
  pose proof (len_nonneg pre) as Hpre. pose proof (len_nonneg post) as Hpost.
  destruct (Z.ltb_spec (len pre) 0) as [Hneg | _]; [lia |].
  rewrite len_app, len_cons.
  destruct (Z.ltb_spec (len pre) 0) as [Hneg | _]; [lia |].
  destruct (Z.leb_spec (len pre + (1 + len post)) (len pre)) as [Hle | _];
    [lia |].
  simpl orb. cbv iota.
  unfold len. rewrite Nat2Z.id.
  rewrite nth_error_app2 by lia.
  rewrite Nat.sub_diag. reflexivity.
Qed.

(** One past the end raises. *)
Lemma getitem_past_end (t : str) : getitem t (len t) = Raise IndexError.
Proof.
  unfold getitem. pose proof (len_nonneg t) as Ht.
  destruct (Z.ltb_spec (len t) 0) as [Hneg | _]; [lia |].
  destruct (Z.ltb_spec (len t) 0) as [Hneg | _]; [lia |].
  rewrite Z.leb_refl. reflexivity.
Qed.

(** Index [-1] wraps around to the final character. *)
Lemma getitem_minus_one (pre : str) (c : codepoint) :
  getitem (pre ++ [c]) (-1) = Return c.
Proof.
  unfold getitem. pose proof (len_nonneg pre) as Hpre.
  change (-1 <? 0) with true. cbv iota.
  rewrite len_app, len_cons. change (len []) with 0.
  destruct (Z.ltb_spec (-1 + (len pre + (1 + 0))) 0) as [Hneg | _]; [lia |].
  destruct (Z.leb_spec (len pre + (1 + 0)) (-1 + (len pre + (1 + 0))))
    as [Hle | _]; [lia |].
  simpl orb. cbv iota.
  replace (Z.to_nat (-1 + (len pre + (1 + 0)))) with (List.length pre)
    by (unfold len; lia).
  rewrite nth_error_app2 by lia.
  rewrite Nat.sub_diag. reflexivity.
Qed.

(** ** Facts about the scan *)

Lemma pipe_not_space : isspace pipe = false.
Proof. reflexivity. Qed.

Lemma scan_from_other (text : str) (idx : Z) (chr : codepoint) (rest : str) :
  chr <> pipe ->
  scan_from text idx (chr :: rest) = scan_from text (idx + 1) rest.
Proof.
  intros Hne. simpl.
  destruct (N.eqb_spec chr pipe) as [Heq | _]; [contradiction | reflexivity].
Qed.

(** One iteration of the loop at a ["|"]. *)
Lemma scan_from_pipe (text : str) (idx : Z) (rest : str) :
  scan_from text idx (pipe :: rest)
  = (c1 <- py_and (idx =? 0) (not_space_at text (idx + 1)) ;;
     if c1 then Return true
     else
       c2 <- py_and (idx =? len text - 1) (not_space_at text (idx - 1)) ;;
       if c2 then Return true
       else
         c3 <- py_or (not_space_at text (idx - 1))
                     (not_space_at text (idx + 1)) ;;
         if c3 then Return true else scan_from text (idx + 1) rest).
Proof. reflexivity. Qed.

(** Characters other than ["|"] are skipped. *)
Lemma scan_from_skip (text : str) (a b : str) :
  ~ In pipe a ->
  forall idx, scan_from text idx (a ++ b) = scan_from text (idx + len a) b.
Proof.
  induction a as [| c a IH]; intros Hno idx.
  - change (len []) with 0. rewrite Z.add_0_r. reflexivity.
  - rewrite <- app_comm_cons, scan_from_other.
    + rewrite IH, len_cons.
      * f_equal. lia.
      * intros Hin. apply Hno. right. exact Hin.
    + intros Heq. apply Hno. left. exact Heq.
Qed.

(** A string without ["|"] is never flagged. *)
Lemma scan_from_no_pipe (text : str) (rest : str) (idx : Z) :
  ~ In pipe rest -> scan_from text idx rest = Return false.
Proof.
  intros Hno. rewrite <- (app_nil_r rest), scan_from_skip by exact Hno.
  reflexivity.
Qed.

(** X1. A string that contains no ["|"] is never flagged, whatever its
    length: the checker returns [False]. *)
Lemma string_without_pipe (text : str) :
  ~ In pipe text -> string_violates_rule text = Return false.
Proof.
  intros Hno. unfold string_violates_rule.
  destruct (len text <? 2); [reflexivity |].
  apply scan_from_no_pipe. exact Hno.
Qed.

(** Inside [-len(text) .. len(text) - 1] indexing returns. *)
Lemma getitem_in_range (text : str) (i : Z) :
  - len text <= i < len text -> exists c, getitem text i = Return c.
Proof.
  intros Hrange. unfold getitem.
  set (j := if i <? 0 then i + len text else i).
  assert (Hj : 0 <= j < len text).
  { unfold j. destruct (Z.ltb_spec i 0); lia. }
  destruct (Z.ltb_spec j 0) as [Hneg | _]; [lia |].
  destruct (Z.leb_spec (len text) j) as [Hle | _]; [lia |].
  simpl orb. cbv iota.
  destruct (nth_error text (Z.to_nat j)) as [c |] eqn:Hnth.
  - exists c. reflexivity.
  - apply nth_error_None in Hnth. unfold len in Hj. lia.
Qed.

Lemma not_space_at_in_range (text : str) (i : Z) :
  - len text <= i < len text -> exists b, not_space_at text i = Return b.
Proof.
  intros Hrange. destruct (getitem_in_range text i Hrange) as [c Hc].
  unfold not_space_at. rewrite Hc. eexists. reflexivity.
Qed.

(** The scan returns when what is left to enumerate does not end in
    ["|"]: every ["|"] it meets then has a character after it. *)
Lemma scan_from_returns (text : str) (rest : str) :
  forall idx,
    0 <= idx -> idx + len rest = len text ->
    last rest 0%N <> pipe ->
    exists b, scan_from text idx rest = Return b.
Proof.
  induction rest as [| c rest IH]; intros idx Hidx Hlen Hlast.
  - exists false. reflexivity.
  - rewrite len_cons in Hlen. pose proof (len_nonneg rest) as Hrest.
    destruct (N.eq_dec c pipe) as [Hc | Hc].
    + subst c. destruct rest as [| c' rest'].
      { exfalso. apply Hlast. reflexivity. }
      rewrite len_cons in Hlen, Hrest.
      pose proof (len_nonneg rest') as Hrest'.
      destruct (not_space_at_in_range text (idx + 1)) as [n Hn]; [lia |].
      destruct (not_space_at_in_range text (idx - 1)) as [p Hp]; [lia |].
      destruct (IH (idx + 1)) as [b Hb]; [lia | rewrite len_cons; lia | |].
      { exact Hlast. }
      rewrite scan_from_pipe. unfold py_and, py_or. rewrite Hn, Hp, Hb.
      destruct (idx =? 0), (idx =? len text - 1), n, p; simpl;
        eexists; reflexivity.
    + rewrite scan_from_other by exact Hc.
      destruct rest as [| c' rest'].
      * exists false. reflexivity.
      * apply IH; [lia | lia | exact Hlast].
Qed.

(** The string checker returns on every string that does not end in
    ["|"]. *)
Lemma checker_returns_unless_trailing_pipe (text : str) :
  last text 0%N <> pipe -> returns text.
Proof.
  intros Hlast. unfold returns, string_violates_rule.
  destruct (len text <? 2); [exists false; reflexivity |].
  apply scan_from_returns; [lia | lia | exact Hlast].
Qed.

(** ** The string checker: boundary behaviour *)

(** C8. A string of fewer than two characters (the empty string, any
    one-character string, ["|"] itself) is never flagged:
    [string_violates_rule] returns [False]. *)
Theorem short_string_never_flagged (text : str) :
  (List.length text < 2)%nat -> string_violates_rule text = Return false.
Proof.
  intros Hshort. unfold string_violates_rule.
  destruct (Z.ltb_spec (len text) 2) as [_ | Hlong]; [reflexivity |].
  unfold len in Hlong. lia.
Qed.

Lemma short_string_never_flagged_witness :
  (List.length (py_str "|") < 2)%nat /\
  string_violates_rule (py_str "|") = Return false.
Proof.
  split.
  - simpl. lia.
  - apply (short_string_never_flagged (py_str "|")). simpl. lia.
Defined.

(** C3 as the specification words it: ["a|b"] is not flagged. The code
    flags it. *)
Lemma a_pipe_b_not_unflagged :
  string_violates_rule (py_str "a|b") <> Return false.
Proof. vm_compute. discriminate. Qed.

(** C3, amended. [string_violates_rule] applied to ["a|b"] returns [True]:
    the ["|"] at position 1 has a non-space character on either side. *)
Theorem a_pipe_b_flagged :
  string_violates_rule (py_str "a|b") = Return true.
Proof. reflexivity. Qed.

(** An interior ["|"] with a non-space neighbour on the left is flagged
    as soon as the scan reaches it. *)
Lemma interior_pipe_flagged (pre post : str) (a : codepoint) :
  ~ In pipe pre -> a <> pipe -> isspace a = false ->
  string_violates_rule (pre ++ a :: pipe :: post) = Return true.
Proof.
  intros Hpre Ha Hsp. unfold string_violates_rule.
  pose proof (len_nonneg pre) as Hlpre. pose proof (len_nonneg post) as Hlpost.
  assert (Hlen : len (pre ++ a :: pipe :: post) = len pre + 2 + len post)
    by (rewrite len_app, !len_cons; lia).
  destruct (Z.ltb_spec (len (pre ++ a :: pipe :: post)) 2) as [Hlt | _];
    [lia |].
  set (text := pre ++ a :: pipe :: post) in *.
  unfold text at 2.
  rewrite scan_from_skip by exact Hpre.
  rewrite scan_from_other by exact Ha.
  rewrite scan_from_pipe.
  destruct (Z.eqb_spec (0 + len pre + 1) 0) as [H0 | _]; [lia |].
  unfold py_and at 1. rewrite bind_return.
  replace (0 + len pre + 1 - 1) with (len pre) by lia.
  assert (Hprev : not_space_at text (len pre) = Return true).
  { unfold not_space_at, text. rewrite getitem_inside, bind_return, Hsp.
    reflexivity. }
  rewrite Hprev.
  destruct (0 + len pre + 1 =? len text - 1); reflexivity.
Qed.

(** C1. At the failing input ["a |"] the checker does not return: the
    third branch reads [text[idx + 1]] one past the end and raises
    [IndexError], and so does the walk over a task that holds the
    string. *)
Theorem trailing_pipe_raises :
  string_violates_rule (py_str "a |") = Raise IndexError /\
  container_violates_rule
    (Mapping [(KStr (py_str "msg"), Text (py_str "a |"))])
  = Raise IndexError.
Proof. split; reflexivity. Qed.

(** C2. At the failing input ["| b"] the first-position ["|"] falls
    through to the third branch, which reads [text[-1]], the final ["b"],
    and the string is flagged. *)
Theorem leading_pipe_wraps_on_example :
  string_violates_rule (py_str "| b") = Return true.
Proof. reflexivity. Qed.

(** C4. Every string that ends in ["|"] right after a whitespace
    character, and has no other ["|"], raises [IndexError] instead of
    returning [False]. *)
Theorem trailing_spaced_pipe_raises (pre : str) (w : codepoint) :
  isspace w = true -> ~ In pipe pre ->
  string_violates_rule (pre ++ [w; pipe]) = Raise IndexError.
Proof.
  intros Hw Hpre.
  assert (Hwp : w <> pipe).
  { intros Heq. rewrite Heq, pipe_not_space in Hw. discriminate. }
  pose proof (len_nonneg pre) as Hlpre.
  assert (Hlen : len (pre ++ [w; pipe]) = len pre + 2).
  { rewrite len_app, !len_cons. change (len []) with 0. lia. }
  unfold string_violates_rule.
  destruct (Z.ltb_spec (len (pre ++ [w; pipe])) 2) as [Hlt | _]; [lia |].
  set (text := pre ++ [w; pipe]) in *.
  unfold text at 2.
  rewrite scan_from_skip by exact Hpre.
  rewrite scan_from_other by exact Hwp.
  rewrite scan_from_pipe.
  destruct (Z.eqb_spec (0 + len pre + 1) 0) as [H0 | _]; [lia |].
  unfold py_and at 1. rewrite bind_return.
  destruct (Z.eqb_spec (0 + len pre + 1) (len text - 1)) as [_ | Hne];
    [| lia].
  replace (0 + len pre + 1 - 1) with (len pre) by lia.
  replace (0 + len pre + 1 + 1) with (len text) by lia.
  assert (Hprev : not_space_at text (len pre) = Return false).
  { unfold not_space_at, text. rewrite getitem_inside, bind_return, Hw.
    reflexivity. }
  assert (Hnext : not_space_at text (len text) = Raise IndexError).
  { unfold not_space_at. rewrite getitem_past_end. reflexivity. }
  unfold py_and, py_or. rewrite Hprev, Hnext. reflexivity.
Qed.

Lemma trailing_spaced_pipe_raises_witness :
  isspace 32%N = true /\ ~ In pipe (py_str "a") /\
  string_violates_rule (py_str "a" ++ [32%N; pipe]) = Raise IndexError.
Proof.
  assert (Hno : ~ In pipe (py_str "a")).
  { simpl. intros [H | []]. discriminate H. }
  split; [reflexivity | split; [exact Hno |]].
  apply (trailing_spaced_pipe_raises (py_str "a") 32%N); [reflexivity | exact Hno].
Defined.

(** C6. For a string that starts with ["|"] followed by a whitespace
    character and has no other ["|"], the checker returns [True] exactly
    when the final character is not whitespace: the look-behind from
    position 0 reads [text[-1]]. *)
Theorem leading_pipe_wraps (w : codepoint) (rest : str) :
  isspace w = true -> ~ In pipe rest ->
  string_violates_rule (pipe :: w :: rest)
  = Return (negb (isspace (last (w :: rest) w))).
Proof.
  intros Hw Hrest.
  assert (Hwp : w <> pipe).
  { intros Heq. rewrite Heq, pipe_not_space in Hw. discriminate. }
  pose proof (len_nonneg rest) as Hlrest.
  assert (Hlen : len (pipe :: w :: rest) = 2 + len rest)
    by (rewrite !len_cons; lia).
  destruct (exists_last (l := w :: rest)) as [body [z Hsplit]];
    [discriminate |].
  assert (Hlast : last (w :: rest) w = z)
    by (rewrite Hsplit; apply last_last).
  assert (Htext : pipe :: w :: rest = (pipe :: body) ++ [z])
    by (rewrite Hsplit; reflexivity).
  rewrite Hlast.
  unfold string_violates_rule.
  destruct (Z.ltb_spec (len (pipe :: w :: rest)) 2) as [Hlt | _]; [lia |].
  set (text := pipe :: w :: rest) in *.
  unfold text at 2.
  rewrite scan_from_pipe.
  change (0 + 1) with 1. change (0 - 1) with (-1).
  assert (Hnext : not_space_at text 1 = Return false).
  { assert (H1 : getitem text 1 = Return w)
      by exact (getitem_inside [pipe] rest w).
    unfold not_space_at. rewrite H1, bind_return, Hw. reflexivity. }
  assert (Hprev : not_space_at text (-1) = Return (negb (isspace z))).
  { unfold not_space_at. rewrite Htext, getitem_minus_one. reflexivity. }
  destruct (Z.eqb_spec 0 (len text - 1)) as [H0 | _]; [lia |].
  change (0 =? 0) with true.
  unfold py_and, py_or. rewrite Hnext, Hprev, !bind_return.
  destruct (isspace z); simpl negb; cbv iota.
  - apply scan_from_no_pipe.
    intros [Heq | Hin]; [apply Hwp; exact Heq | apply Hrest; exact Hin].
  - reflexivity.
Qed.

Lemma leading_pipe_wraps_witness :
  isspace 32%N = true /\ ~ In pipe (py_str "b") /\
  string_violates_rule (pipe :: 32%N :: py_str "b") = Return true.
Proof.
  assert (Hno : ~ In pipe (py_str "b")).
  { simpl. intros [H | []]. discriminate H. }
  split; [reflexivity | split; [exact Hno |]].
  exact (leading_pipe_wraps 32%N (py_str "b") eq_refl Hno).
Defined.

(** ** Properties of the container walker *)

Lemma walk_sequence (l : list value) :
  container_violates_rule (Sequence l) = any_elem l.
Proof. induction l as [| e l IH]; [reflexivity |]. simpl. now rewrite <- IH. Qed.

Lemma walk_mapping (d : list (key * value)) :
  container_violates_rule (Mapping d) = any_item d.
Proof.
  induction d as [| [k e] d IH]; [reflexivity |]. simpl. now rewrite <- IH.
Qed.

Lemma any_elem_cons (e : value) (l : list value) :
  any_elem (e :: l)
  = (b <- container_violates_rule e ;; if b then Return true else any_elem l).
Proof. reflexivity. Qed.

(** The walk over a mapping is the walk over its values in entry order. *)
Lemma any_item_values (d : list (key * value)) :
  any_item d = any_elem (List.map snd d).
Proof.
  induction d as [| [k e] d IH]; [reflexivity |].
  simpl. rewrite IH. reflexivity.
Qed.

(** Where every element returns [False], so does the walk. *)
Lemma any_elem_all_false (l : list value) :
  Forall (fun e => container_violates_rule e = Return false) l ->
  any_elem l = Return false.
Proof.
  induction 1 as [| e l He _ IH]; [reflexivity |].
  rewrite any_elem_cons, He. exact IH.
Qed.

(** The first element that returns [True] settles the walk, whatever
    follows it. *)
Lemma any_elem_first_true (pre post : list value) (e : value) :
  Forall (fun x => container_violates_rule x = Return false) pre ->
  container_violates_rule e = Return true ->
  any_elem (pre ++ e :: post) = Return true.
Proof.
  induction 1 as [| x pre Hx _ IH]; intros He.
  - simpl app. rewrite any_elem_cons, He. reflexivity.
  - rewrite <- app_comm_cons, any_elem_cons, Hx. apply IH. exact He.
Qed.

(** On a value all of whose text leaves the string checker returns on,
    the walk returns the disjunction of the leaves' verdicts. *)
Lemma any_elem_or (l : list value) :
  Forall (fun e => Forall returns (leaves e) ->
                   container_violates_rule e
                   = Return (existsb verdict (leaves e))) l ->
  Forall returns (flat_map leaves l) ->
  any_elem l = Return (existsb verdict (flat_map leaves l)).
Proof.
  induction 1 as [| e l He _ IH]; intros Hret; [reflexivity |].
  simpl flat_map in *. apply Forall_app in Hret. destruct Hret as [Hr1 Hr2].
  rewrite any_elem_cons, (He Hr1), bind_return, existsb_app.
  destruct (existsb verdict (leaves e)); [reflexivity |].
  exact (IH Hr2).
Qed.

Theorem walk_is_or_of_leaves (v : value) :
  Forall returns (leaves v) ->
  container_violates_rule v = Return (existsb verdict (leaves v)).
Proof.
  induction v as [s | l IH | d IH | o] using value_ind; intros Hret.
  - simpl in *. apply Forall_inv in Hret. destruct Hret as [b Hb].
    unfold verdict. rewrite Hb, orb_false_r. reflexivity.
  - rewrite walk_sequence. apply any_elem_or; assumption.
  - rewrite walk_mapping, any_item_values.
    assert (Hl : leaves (Mapping d) = flat_map leaves (List.map snd d)).
    { simpl. clear. induction d as [| [k e] d IHd]; [reflexivity |].
      simpl. now rewrite IHd. }
    rewrite Hl in *. apply any_elem_or; [| exact Hret].
    apply Forall_map. exact IH.
  - reflexivity.
Qed.

(** X6. On every value none of whose text leaves ends in ["|"] the walk
    returns, and its result is the disjunction of the string checker's
    verdicts on the text leaves. *)
Corollary walk_is_or_without_trailing_pipe (v : value) :
  Forall (fun text => last text 0%N <> pipe) (leaves v) ->
  container_violates_rule v = Return (existsb verdict (leaves v)).
Proof.
  intros Hno. apply walk_is_or_of_leaves.
  eapply Forall_impl; [| exact Hno].
  exact checker_returns_unless_trailing_pipe.
Qed.

Lemma existsb_permutation {A : Type} (f : A -> bool) (l l' : list A) :
  Permutation l l' -> existsb f l = existsb f l'.
Proof.
  induction 1 as [| x l l' _ IH | x y l | l l' l'' _ IH1 _ IH2]; simpl.
  - reflexivity.
  - now rewrite IH.
  - destruct (f x), (f y); reflexivity.
  - now rewrite IH1.
Qed.

(** X7. Reordering the elements of a sequence does not change the
    result, as long as the string checker returns on every text leaf. *)
Theorem sequence_order_irrelevant_when_total (l l' : list value) :
  Permutation l l' ->
  Forall returns (leaves (Sequence l)) ->
  container_violates_rule (Sequence l) = container_violates_rule (Sequence l').
Proof.
  intros Hperm Hret.
  assert (Hleaves : Permutation (leaves (Sequence l)) (leaves (Sequence l')))
    by (simpl; apply Permutation_flat_map; exact Hperm).
  rewrite (walk_is_or_of_leaves (Sequence l) Hret).
  rewrite (walk_is_or_of_leaves (Sequence l')).
  - f_equal. apply existsb_permutation. exact Hleaves.
  - eapply Permutation_Forall; eassumption.
Qed.

(** X8. Reordering the entries of a mapping does not change the result,
    as long as the string checker returns on every text leaf. *)
Theorem mapping_order_irrelevant_when_total (d d' : list (key * value)) :
  Permutation d d' ->
  Forall returns (leaves (Mapping d)) ->
  container_violates_rule (Mapping d) = container_violates_rule (Mapping d').
Proof.
  intros Hperm Hret.
  assert (Hleaves : Permutation (leaves (Mapping d)) (leaves (Mapping d')))
    by (simpl; apply Permutation_flat_map; exact Hperm).
  rewrite (walk_is_or_of_leaves (Mapping d) Hret).
  rewrite (walk_is_or_of_leaves (Mapping d')).
  - f_equal. apply existsb_permutation. exact Hleaves.
  - eapply Permutation_Forall; eassumption.
Qed.

(** C5. The walk is not the disjunction over the leaves, and its result
    depends on the order: with ["a|b"] first the generator stops there and
    [any] returns [True]; with ["a |"] first the string checker raises
    [IndexError] before ["a|b"] is reached. *)
Theorem walk_order_dependent_on_example :
  Permutation [Text (py_str "a|b"); Text (py_str "a |")]
              [Text (py_str "a |"); Text (py_str "a|b")] /\
  container_violates_rule (Sequence [Text (py_str "a|b"); Text (py_str "a |")])
  = Return true /\
  container_violates_rule (Sequence [Text (py_str "a |"); Text (py_str "a|b")])
  = Raise IndexError.
Proof.
  split; [apply perm_swap | split; reflexivity].
Qed.

(** ** Values that are neither text nor containers *)

Lemma is_other_prune (v : value) : is_other (prune v) = is_other v.
Proof. destruct v; reflexivity. Qed.

Lemma walk_other (v : value) :
  is_other v = true -> container_violates_rule v = Return false.
Proof. destruct v; simpl; intros H; try discriminate H; reflexivity. Qed.

Lemma any_elem_prune (l : list value) :
  Forall (fun e => container_violates_rule (prune e)
                   = container_violates_rule e) l ->
  any_elem (filter (fun e => negb (is_other e)) (List.map prune l))
  = any_elem l.
Proof.
  induction 1 as [| e l He _ IH]; [reflexivity |].
  simpl List.map. simpl filter. rewrite is_other_prune.
  destruct (is_other e) eqn:Hoth; simpl negb; cbv iota.
  - rewrite any_elem_cons, (walk_other e Hoth), bind_return. exact IH.
  - rewrite !any_elem_cons, He, IH. reflexivity.
Qed.

Lemma prune_values (d : list (key * value)) :
  List.map snd
    (filter (fun kv => negb (is_other (snd kv)))
       (List.map (fun kv => match kv with (k, e) => (k, prune e) end) d))
  = filter (fun e => negb (is_other e)) (List.map prune (List.map snd d)).
Proof.
  induction d as [| [k e] d IH]; [reflexivity |].
  simpl. destruct (negb (is_other (prune e))); simpl; now rewrite IH.
Qed.

Lemma walk_prune (v : value) :
  container_violates_rule (prune v) = container_violates_rule v.
Proof.
  induction v as [s | l IH | d IH | o] using value_ind.
  - reflexivity.
  - simpl prune. rewrite !walk_sequence. apply any_elem_prune. exact IH.
  - simpl prune. rewrite !walk_mapping, !any_item_values, prune_values.
    apply any_elem_prune. apply Forall_map. exact IH.
  - reflexivity.
Qed.

(** C7. On a value that is neither text, sequence nor mapping the walk
    returns [False]; dropping every such value from the sequences and
    mappings of a value, at every depth, leaves the walk's result as it
    was; and a value with no text leaf at all is never flagged. *)
Theorem other_never_violates :
  (forall o, container_violates_rule (Other o) = Return false) /\
  (forall v, container_violates_rule (prune v) = container_violates_rule v) /\
  (forall v, leaves v = [] -> container_violates_rule v = Return false).
Proof.
  split; [reflexivity | split; [exact walk_prune |]].
  intros v Hnone. rewrite walk_is_or_of_leaves; rewrite Hnone.
  - reflexivity.
  - constructor.
Qed.

Lemma other_never_violates_witness :
  leaves nested_scalars = [] /\
  container_violates_rule nested_scalars = Return false /\
  container_violates_rule (prune nested_scalars) = Return false.
Proof.
  split; [reflexivity | split].
  - apply (proj2 (proj2 other_never_violates) nested_scalars). reflexivity.
  - rewrite (proj1 (proj2 other_never_violates) nested_scalars). reflexivity.
Defined.

(** ** Mapping keys *)

(** C9. Two mappings with the same values in the same entry order get the
    same result whatever their keys are; and a mapping none of whose
    values is flagged is not flagged, whatever its keys contain. *)
Theorem mapping_keys_never_scanned :
  (forall d1 d2 : list (key * value),
      List.map snd d1 = List.map snd d2 ->
      container_violates_rule (Mapping d1)
      = container_violates_rule (Mapping d2)) /\
  (forall d : list (key * value),
      Forall (fun kv => container_violates_rule (snd kv) = Return false) d ->
      container_violates_rule (Mapping d) = Return false).
Proof.
  split.
  - intros d1 d2 Hvalues.
    rewrite !walk_mapping, !any_item_values, Hvalues. reflexivity.
  - intros d Hall. rewrite walk_mapping, any_item_values.
    apply any_elem_all_false. apply Forall_map. exact Hall.
Qed.

Lemma mapping_keys_never_scanned_witness :
  List.map snd task_spaced_keys = List.map snd task_unspaced_keys /\
  container_violates_rule (Mapping task_spaced_keys)
  = container_violates_rule (Mapping task_unspaced_keys) /\
  container_violates_rule (Mapping task_unspaced_keys) = Return false.
Proof.
  split; [reflexivity | split].
  - apply (proj1 mapping_keys_never_scanned). reflexivity.
  - apply (proj2 mapping_keys_never_scanned).
    repeat constructor.
Defined.

(** ** The rule adapter *)

(** C10. [matchtask] returns [container_violates_rule(task)], whatever
    the [file] argument is and whether it is given at all. *)
Theorem matchtask_ignores_file :
  forall (Lintable : Type) (self : FilterSurroundedBySpacesRule)
         (task : list (key * value)) (file1 file2 : option Lintable),
    matchtask self task file1 = matchtask self task file2 /\
    matchtask self task file1 = container_violates_rule (Mapping task).
Proof. intros. split; reflexivity. Qed.

(** The end-to-end scenario of the rule's test: the task is flagged
    because of [msg], although [loop] alone would not be. *)
Example bad_msg_task :
  matchtask (Lintable := unit) the_rule
    [(KStr (py_str "msg"), Text (py_str "{{ item|list }}"));
     (KStr (py_str "loop"),
      Text (py_str "{{ result.stdout | from_yaml_all | list }}"))]
    None
  = Return true /\
  string_violates_rule (py_str "{{ result.stdout | from_yaml_all | list }}")
  = Return false.
Proof. split; reflexivity. Qed.

(** ** The exact behaviour of the string checker *)

Lemma getitem_before (pre rest : str) :
  rest <> [] ->
  getitem (pre ++ rest) (len pre - 1) = Return (before (pre ++ rest) pre).
Proof.
  intros Hrest. unfold before.
  destruct pre as [| p0 pre0].
  - simpl app. change (len [] - 1) with (-1).
    destruct (exists_last Hrest) as [body [z Hz]]. rewrite Hz.
    rewrite getitem_minus_one. simpl last at 1. now rewrite last_last.
  - destruct (exists_last (l := p0 :: pre0)) as [body [z Hz]];
      [discriminate |].
    rewrite Hz, last_last, <- app_assoc. simpl app.
    replace (len (body ++ [z]) - 1) with (len body).
    + apply getitem_inside.
    + rewrite len_app, len_cons. change (len []) with 0. lia.
Qed.

Lemma getitem_after (pre post : str) (c n : codepoint) :
  getitem (pre ++ c :: n :: post) (len pre + 1) = Return n.
Proof.
  replace (len pre + 1) with (len (pre ++ [c])).
  - replace (pre ++ c :: n :: post) with ((pre ++ [c]) ++ n :: post)
      by (rewrite <- app_assoc; reflexivity).
    apply getitem_inside.
  - rewrite len_app, len_cons. change (len []) with 0. lia.
Qed.

Lemma getitem_after_last (pre : str) (c : codepoint) :
  getitem (pre ++ [c]) (len pre + 1) = Raise IndexError.
Proof.
  replace (len pre + 1) with (len (pre ++ [c])).
  - apply getitem_past_end.
  - rewrite len_app, len_cons. change (len []) with 0. lia.
Qed.

(** What one iteration at a ["|"] does, in terms of the characters
    around it. *)
Lemma scan_from_pipe_step (pre post : str) :
  2 <= len (pre ++ pipe :: post) ->
  scan_from (pre ++ pipe :: post) (len pre) (pipe :: post)
  = if offending (pre ++ pipe :: post) pre post then Return true
    else if surrounded (pre ++ pipe :: post) pre post
         then scan_from (pre ++ pipe :: post) (len pre + 1) post
         else Raise IndexError.
Proof.
  intros Hlen. pose proof (len_nonneg pre) as Hpre.
  rewrite len_app, len_cons in Hlen.
  rewrite scan_from_pipe.
  assert (Hprev : not_space_at (pre ++ pipe :: post) (len pre - 1)
                  = Return (negb (isspace (before (pre ++ pipe :: post) pre)))).
  { unfold not_space_at. rewrite getitem_before by discriminate.
    reflexivity. }
  unfold offending, surrounded. rewrite Hprev.
  set (B := isspace (before (pre ++ pipe :: post) pre)).
  destruct post as [| n post'].
  - change (len []) with 0 in Hlen.
    assert (Hnext : not_space_at (pre ++ [pipe]) (len pre + 1)
                    = Raise IndexError).
    { unfold not_space_at. rewrite getitem_after_last. reflexivity. }
    rewrite Hnext.
    destruct (Z.eqb_spec (len pre) 0) as [H0 | _]; [lia |].
    destruct (Z.eqb_spec (len pre) (len (pre ++ [pipe]) - 1)) as [_ | Hne].
    + destruct B; reflexivity.
    + exfalso. apply Hne. rewrite len_app, len_cons. change (len []) with 0.
      lia.
  - assert (Hnext : not_space_at (pre ++ pipe :: n :: post') (len pre + 1)
                    = Return (negb (isspace n))).
    { unfold not_space_at. rewrite getitem_after. reflexivity. }
    rewrite Hnext.
    destruct (Z.eqb_spec (len pre) (len (pre ++ pipe :: n :: post') - 1))
      as [Heq | _].
    + exfalso. rewrite len_app, !len_cons in Heq.
      pose proof (len_nonneg post'). lia.
    + destruct (len pre =? 0), B, (isspace n); reflexivity.
Qed.

Lemma scan_from_pipe_step_in (text pre post : str) :
  text = pre ++ pipe :: post -> 2 <= len text ->
  scan_from text (len pre) (pipe :: post)
  = if offending text pre post then Return true
    else if surrounded text pre post
         then scan_from text (len pre + 1) post
         else Raise IndexError.
Proof. intros ->. apply scan_from_pipe_step. Qed.

Lemma app_last_cons {A : Type} (pre a : list A) (c : A) :
  (pre ++ [c]) ++ a = pre ++ c :: a.
Proof. rewrite <- app_assoc. reflexivity. Qed.

(** Where a ["|"] can sit in [c :: rest]: at the head, or in [rest]. *)
Lemma split_at_pipe (c : codepoint) (rest a b : str) :
  c :: rest = a ++ pipe :: b ->
  (a = [] /\ c = pipe /\ b = rest) \/
  (exists a', a = c :: a' /\ rest = a' ++ pipe :: b).
Proof.
  intros Hsplit. destruct a as [| x a'].
  - left. injection Hsplit as Hc Hb. repeat split; congruence.
  - right. injection Hsplit as Hc Hr. exists a'. split; congruence.
Qed.

Lemma offending_not_surrounded (text pre post : str) :
  offending text pre post = true -> surrounded text pre post = false.
Proof.
  unfold offending, surrounded.
  destruct (isspace (before text pre)), post as [| n post'];
    try destruct (isspace n); simpl; congruence.
Qed.

(** A ["|"] that is neither offending nor surrounded is the last
    character, with whitespace before it. *)
Lemma neither_is_trailing (text pre post : str) :
  offending text pre post = false -> surrounded text pre post = false ->
  post = [] /\ isspace (before text pre) = true.
Proof.
  unfold offending, surrounded.
  destruct (isspace (before text pre)), post as [| n post'];
    try destruct (isspace n); simpl; intros H1 H2;
    try discriminate; split; reflexivity.
Qed.

(** The three ways the scan of a suffix ends, each with what it says
    about the ["|"] characters of that suffix. *)
Lemma scan_from_cases (text : str) :
  2 <= len text ->
  forall rest pre, text = pre ++ rest ->
    (scan_from text (len pre) rest = Return false /\
     all_surrounded text pre rest)
    \/ (scan_from text (len pre) rest = Return true /\
        one_offending text pre rest)
    \/ (scan_from text (len pre) rest = Raise IndexError /\
        ends_in_spaced_pipe text pre rest /\
        none_offending text pre rest).
Proof.
  intros Hlen rest.
  induction rest as [| c rest IH]; intros pre Htext.
  - left. split; [reflexivity |].
    intros a b Hsplit. destruct a; discriminate Hsplit.
  - assert (Hnext : text = (pre ++ [c]) ++ rest)
      by (rewrite app_last_cons; exact Htext).
    assert (Hidx : len (pre ++ [c]) = len pre + 1).
    { rewrite len_app, len_cons. change (len []) with 0. lia. }
    specialize (IH (pre ++ [c]) Hnext). rewrite Hidx in IH.
    unfold all_surrounded, one_offending, none_offending,
      ends_in_spaced_pipe in *.
    destruct (N.eq_dec c pipe) as [Hc | Hc].
    + subst c. rewrite (scan_from_pipe_step_in text pre rest Htext Hlen).
      destruct (offending text pre rest) eqn:Hoff.
      * right; left. split; [reflexivity |].
        exists [], rest. rewrite app_nil_r. split; [reflexivity | exact Hoff].
      * destruct (surrounded text pre rest) eqn:Hsur.
        -- destruct IH as [[Hs Hall] | [[Hs Hex] | [Hs [Hend Hnone]]]].
           ++ left. split; [exact Hs |]. intros a b Hsplit.
              destruct (split_at_pipe _ _ _ _ Hsplit)
                as [[Ha [_ Hb]] | [a' [Ha Hr]]]; subst a; try subst b.
              ** rewrite app_nil_r. exact Hsur.
              ** rewrite <- app_last_cons. apply Hall. exact Hr.
           ++ right; left. split; [exact Hs |].
              destruct Hex as [a [b [Hr Ho]]].
              exists (pipe :: a), b. split.
              ** rewrite Hr. reflexivity.
              ** rewrite <- app_last_cons. exact Ho.
           ++ right; right. split; [exact Hs |]. split.
              ** destruct Hend as [a [Hr Hb]].
                 exists (pipe :: a). split.
                 --- rewrite Hr. reflexivity.
                 --- rewrite <- app_last_cons. exact Hb.
              ** intros a b Hsplit.
                 destruct (split_at_pipe _ _ _ _ Hsplit)
                   as [[Ha [_ Hb]] | [a' [Ha Hr]]]; subst a; try subst b.
                 --- rewrite app_nil_r. exact Hoff.
                 --- rewrite <- app_last_cons. apply Hnone. exact Hr.
        -- destruct (neither_is_trailing _ _ _ Hoff Hsur) as [Hrest Hb].
           subst rest. right; right. split; [reflexivity |]. split.
           ++ exists []. rewrite app_nil_r. split; [reflexivity | exact Hb].
           ++ intros a b Hsplit.
              destruct (split_at_pipe _ _ _ _ Hsplit)
                as [[Ha [_ Hb']] | [a' [Ha Hr]]]; subst a; try subst b.
              ** rewrite app_nil_r. exact Hoff.
              ** destruct a'; discriminate Hr.
    + rewrite (scan_from_other text (len pre) c rest Hc).
      destruct IH as [[Hs Hall] | [[Hs Hex] | [Hs [Hend Hnone]]]].
      * left. split; [exact Hs |]. intros a b Hsplit.
        destruct (split_at_pipe _ _ _ _ Hsplit)
          as [[_ [Hp _]] | [a' [Ha Hr]]]; [contradiction | subst a].
        rewrite <- app_last_cons. apply Hall. exact Hr.
      * right; left. split; [exact Hs |].
        destruct Hex as [a [b [Hr Ho]]].
        exists (c :: a), b. split.
        -- rewrite Hr. reflexivity.
        -- rewrite <- app_last_cons. exact Ho.
      * right; right. split; [exact Hs |]. split.
        -- destruct Hend as [a [Hr Hb]].
           exists (c :: a). split.
           ++ rewrite Hr. reflexivity.
           ++ rewrite <- app_last_cons. exact Hb.
        -- intros a b Hsplit.
           destruct (split_at_pipe _ _ _ _ Hsplit)
             as [[_ [Hp _]] | [a' [Ha Hr]]]; [contradiction | subst a].
           rewrite <- app_last_cons. apply Hnone. exact Hr.
Qed.

(** The same for the whole string. *)
Lemma checker_cases (text : str) :
  (2 <= List.length text)%nat ->
  (string_violates_rule text = Return false /\ every_pipe_surrounded text)
  \/ (string_violates_rule text = Return true /\ some_pipe_offending text)
  \/ (string_violates_rule text = Raise IndexError /\
      (exists a, text = a ++ [pipe] /\ isspace (before text a) = true) /\
      ~ some_pipe_offending text).
Proof.
  intros Hlong.
  assert (Hlen : 2 <= len text) by (unfold len; lia).
  unfold string_violates_rule.
  destruct (Z.ltb_spec (len text) 2) as [Hlt | _]; [lia |].
  destruct (scan_from_cases text Hlen text [] eq_refl)
    as [[Hs Hall] | [[Hs Hex] | [Hs [Hend Hnone]]]].
  - left. split; [exact Hs | exact Hall].
  - right; left. split; [exact Hs | exact Hex].
  - right; right. split; [exact Hs |]. split; [exact Hend |].
    intros [pre [post [Hsplit Hoff]]].
    specialize (Hnone pre post Hsplit). simpl app in Hnone. congruence.
Qed.

(** X2. On a string of at least two characters the checker returns
    [False] exactly when every ["|"] has whitespace before it and a
    whitespace character after it, where "before" a ["|"] at position 0
    means the last character of the string. *)
Theorem unflagged_iff_every_pipe_surrounded (text : str) :
  (2 <= List.length text)%nat ->
  string_violates_rule text = Return false <-> every_pipe_surrounded text.
Proof.
  intros Hlong.
  destruct (checker_cases text Hlong)
    as [[Hs Hall] | [[Hs [pre [post [Hsplit Hoff]]]] | [Hs [[a [Ha _]] _]]]].
  - split; intros _; assumption.
  - split.
    + rewrite Hs. discriminate.
    + intros Hall. specialize (Hall pre post Hsplit).
      rewrite (offending_not_surrounded _ _ _ Hoff) in Hall. discriminate.
  - split.
    + rewrite Hs. discriminate.
    + intros Hall. specialize (Hall a [] Ha).
      unfold surrounded in Hall. rewrite andb_false_r in Hall. discriminate.
Qed.

Lemma unflagged_iff_every_pipe_surrounded_witness :
  (2 <= List.length (py_str "a | b"))%nat /\
  every_pipe_surrounded (py_str "a | b").
Proof.
  assert (Hlong : (2 <= List.length (py_str "a | b"))%nat) by (simpl; lia).
  split; [exact Hlong |].
  apply (proj1 (unflagged_iff_every_pipe_surrounded (py_str "a | b") Hlong)).
  reflexivity.
Defined.

(** X3. On a string of at least two characters the checker returns
    [True] exactly when some ["|"] has a non-whitespace character before
    it (for a ["|"] at position 0: as the last character of the string)
    or a non-whitespace character after it. *)
Theorem flagged_iff_some_pipe_offending (text : str) :
  (2 <= List.length text)%nat ->
  string_violates_rule text = Return true <-> some_pipe_offending text.
Proof.
  intros Hlong.
  destruct (checker_cases text Hlong)
    as [[Hs Hall] | [[Hs Hex] | [Hs [_ Hnone]]]].
  - split.
    + rewrite Hs. discriminate.
    + intros [pre [post [Hsplit Hoff]]]. specialize (Hall pre post Hsplit).
      rewrite (offending_not_surrounded _ _ _ Hoff) in Hall. discriminate.
  - split; intros _; assumption.
  - split.
    + rewrite Hs. discriminate.
    + intros Hex. contradiction.
Qed.

Lemma flagged_iff_some_pipe_offending_witness :
  (2 <= List.length (py_str "x | y|z"))%nat /\
  string_violates_rule (py_str "x | y|z") = Return true.
Proof.
  assert (Hlong : (2 <= List.length (py_str "x | y|z"))%nat) by (simpl; lia).
  split; [exact Hlong |].
  apply (proj2 (flagged_iff_some_pipe_offending (py_str "x | y|z") Hlong)).
  exists (py_str "x | y"), (py_str "z"). split; reflexivity.
Defined.



(** Witness for X1. *)
Lemma string_without_pipe_witness :
  ~ In pipe (py_str "{{ item }}") /\
  string_violates_rule (py_str "{{ item }}") = Return false.
Proof.
  assert (Hno : ~ In pipe (py_str "{{ item }}")).
  { simpl. intros H.
    repeat (destruct H as [H | H]; [discriminate H |]). exact H. }
  split; [exact Hno |].
  apply (string_without_pipe (py_str "{{ item }}")). exact Hno.
Defined.

(** ** How the walk composes *)

Lemma py_or_return_false (m : result bool) : py_or (Return false) m = m.
Proof. reflexivity. Qed.

Lemma any_elem_app (l1 l2 : list value) :
  any_elem (l1 ++ l2) = py_or (any_elem l1) (any_elem l2).
Proof.
  induction l1 as [| e l1 IH]; [reflexivity |].
  rewrite <- app_comm_cons, !any_elem_cons, IH. unfold py_or.
  destruct (container_violates_rule e) as [[|] | ex]; reflexivity.
Qed.

Lemma leaves_mapping (d : list (key * value)) :
  leaves (Mapping d) = flat_map leaves (List.map snd d).
Proof.
  simpl. induction d as [| [k e] d IH]; [reflexivity |].
  simpl. now rewrite IH.
Qed.

Lemma any_elem_flat (l : list value) :
  Forall (fun e => any_elem (List.map Text (leaves e))
                   = container_violates_rule e) l ->
  any_elem (List.map Text (flat_map leaves l)) = any_elem l.
Proof.
  induction 1 as [| e l He _ IH]; [reflexivity |].
  simpl flat_map. rewrite map_app, any_elem_app, He, IH.
  unfold py_or. rewrite any_elem_cons. reflexivity.
Qed.

Lemma any_elem_texts (v : value) :
  any_elem (List.map Text (leaves v)) = container_violates_rule v.
Proof.
  induction v as [s | l IH | d IH | o] using value_ind.
  - simpl. destruct (string_violates_rule s) as [[|] | ex]; reflexivity.
  - rewrite walk_sequence. apply any_elem_flat. exact IH.
  - rewrite walk_mapping, any_item_values, leaves_mapping.
    apply any_elem_flat. apply Forall_map. exact IH.
  - reflexivity.
Qed.

(** X5. The walk over any value gives exactly what the walk over the
    flat list of its text leaves gives, in the order the walk meets them,
    a raised [IndexError] included: nesting changes nothing. *)
Theorem walk_flattens (v : value) :
  container_violates_rule v
  = container_violates_rule (Sequence (List.map Text (leaves v))).
Proof. rewrite walk_sequence, any_elem_texts. reflexivity. Qed.

(** X9. In a sequence whose first elements all return [False], the next
    element decides as soon as it returns [True] or raises: what follows
    it is never looked at. *)
Theorem sequence_first_decides (pre post : list value) (e : value) :
  Forall (fun x => container_violates_rule x = Return false) pre ->
  container_violates_rule e <> Return false ->
  container_violates_rule (Sequence (pre ++ e :: post))
  = container_violates_rule e.
Proof.
  intros Hpre He.
  rewrite walk_sequence, any_elem_app, (any_elem_all_false pre Hpre).
  rewrite py_or_return_false, any_elem_cons.
  destruct (container_violates_rule e) as [[|] | ex];
    [reflexivity | contradiction | reflexivity].
Qed.

Lemma sequence_first_decides_witness :
  Forall (fun x => container_violates_rule x = Return false)
    [Text (py_str "a | b"); Other PyNone] /\
  container_violates_rule (Text (py_str "a |")) <> Return false /\
  container_violates_rule
    (Sequence ([Text (py_str "a | b"); Other PyNone]
               ++ Text (py_str "a |") :: [Text (py_str "a|b")]))
  = Raise IndexError.
Proof.
  assert (Hpre : Forall (fun x => container_violates_rule x = Return false)
                   [Text (py_str "a | b"); Other PyNone])
    by (repeat constructor).
  assert (He : container_violates_rule (Text (py_str "a |")) <> Return false)
    by (vm_compute; discriminate).
  split; [exact Hpre | split; [exact He |]].
  rewrite (sequence_first_decides _ [Text (py_str "a|b")] _ Hpre He).
  reflexivity.
Defined.

(** X10. A mapping gets the result of the list of its values, taken in
    entry order. *)
Theorem mapping_as_sequence_of_values (d : list (key * value)) :
  container_violates_rule (Mapping d)
  = container_violates_rule (Sequence (List.map snd d)).
Proof. rewrite walk_mapping, any_item_values, walk_sequence. reflexivity. Qed.

(** X11. The walk over a concatenation is the short-circuit [or] of the
    walks over the two parts: the second part is walked only when the
    first returns [False]. *)
Theorem sequence_concat (l1 l2 : list value) :
  container_violates_rule (Sequence (l1 ++ l2))
  = py_or (container_violates_rule (Sequence l1))
          (container_violates_rule (Sequence l2)).
Proof. rewrite !walk_sequence. apply any_elem_app. Qed.

(** X12. Wrapping a value in a one-element list or in a one-entry
    mapping does not change the result. *)
Theorem singleton_wrapping (k : key) (v : value) :
  container_violates_rule (Sequence [v]) = container_violates_rule v /\
  container_violates_rule (Mapping [(k, v)]) = container_violates_rule v.
Proof.
  split; simpl;
    destruct (container_violates_rule v) as [[|] | ex]; reflexivity.
Qed.

(** ** The rule adapter, end to end *)

Lemma verdict_true_iff (text : str) :
  verdict text = true <->
  (2 <= List.length text)%nat /\ some_pipe_offending text.
Proof.
  unfold verdict. split.
  - intros Hv.
    assert (Hlong : (2 <= List.length text)%nat).
    { unfold string_violates_rule in Hv.
      destruct (Z.ltb_spec (len text) 2) as [_ | Hge];
        [discriminate Hv | unfold len in Hge; lia]. }
    split; [exact Hlong |].
    destruct (checker_cases text Hlong)
      as [[Hs _] | [[_ Hex] | [Hs _]]];
      [rewrite Hs in Hv; discriminate Hv | exact Hex
      | rewrite Hs in Hv; discriminate Hv].
  - intros [Hlong Hex].
    destruct (checker_cases text Hlong)
      as [[_ Hall] | [[Hs _] | [_ [_ Hnone]]]];
      [| rewrite Hs; reflexivity | contradiction].
    destruct Hex as [pre [post [Hsplit Hoff]]].
    specialize (Hall pre post Hsplit).
    rewrite (offending_not_surrounded _ _ _ Hoff) in Hall. discriminate.
Qed.

(** X13. A task none of whose strings contains ["|"] is not reported:
    [matchtask] returns [False]. *)
Theorem matchtask_pipe_free_task {Lintable : Type}
    (self : FilterSurroundedBySpacesRule) (task : list (key * value))
    (file : option Lintable) :
  Forall (fun text => ~ In pipe text) (leaves (Mapping task)) ->
  matchtask self task file = Return false.
Proof.
  intros Hno. unfold matchtask.
  rewrite <- any_elem_texts.
  apply any_elem_all_false. apply Forall_map.
  eapply Forall_impl; [| exact Hno].
  intros text Htext. simpl. unfold string_violates_rule.
  destruct (len text <? 2); [reflexivity |].
  apply scan_from_no_pipe. exact Htext.
Qed.

Lemma pipe_free_correct (text : str) :
  pipe_free text = true -> ~ In pipe text.
Proof.
  unfold pipe_free. intros Hall Hin.
  rewrite forallb_forall in Hall. specialize (Hall pipe Hin).
  discriminate Hall.
Qed.

Lemma matchtask_pipe_free_task_witness :
  Forall (fun text => ~ In pipe text) (leaves (Mapping register_task)) /\
  matchtask (Lintable := unit) the_rule register_task None = Return false.
Proof.
  assert (Hno : Forall (fun text => ~ In pipe text)
                  (leaves (Mapping register_task))).
  { repeat constructor; apply pipe_free_correct; reflexivity. }
  split; [exact Hno |].
  exact (matchtask_pipe_free_task the_rule register_task None Hno).
Defined.

(** X14. On a task none of whose strings ends in ["|"], [matchtask]
    returns [True] exactly when some string reachable through the task's
    values has at least two characters and an offending ["|"]. *)
Theorem matchtask_reports_offending {Lintable : Type}
    (self : FilterSurroundedBySpacesRule) (task : list (key * value))
    (file : option Lintable) :
  Forall (fun text => last text 0%N <> pipe) (leaves (Mapping task)) ->
  matchtask self task file = Return true <->
  exists text, In text (leaves (Mapping task)) /\
               (2 <= List.length text)%nat /\ some_pipe_offending text.
Proof.
  intros Hno. unfold matchtask.
  rewrite walk_is_or_of_leaves.
  - split.
    + intros Heq. injection Heq as Hex.
      apply existsb_exists in Hex. destruct Hex as [text [Hin Hv]].
      exists text. split; [exact Hin |]. apply verdict_true_iff. exact Hv.
    + intros [text [Hin Hoff]]. f_equal.
      apply existsb_exists. exists text. split; [exact Hin |].
      apply verdict_true_iff. exact Hoff.
  - eapply Forall_impl; [| exact Hno].
    exact checker_returns_unless_trailing_pipe.
Qed.

Lemma matchtask_reports_offending_witness :
  Forall (fun text => last text 0%N <> pipe) (leaves (Mapping bad_msg)) /\
  matchtask (Lintable := unit) the_rule bad_msg None = Return true.
Proof.
  assert (Hno : Forall (fun text => last text 0%N <> pipe)
                  (leaves (Mapping bad_msg))).
  { repeat constructor; vm_compute; discriminate. }
  split; [exact Hno |].
  apply (proj2 (matchtask_reports_offending the_rule bad_msg None Hno)).
  exists (py_str "{{ item|list }}"). split; [| split].
  - simpl. right. left. reflexivity.
  - simpl. lia.
  - exists (py_str "{{ item"), (py_str "list }}"). split; reflexivity.
Defined.

Lemma walk_is_or_without_trailing_pipe_witness :
  Forall (fun text => last text 0%N <> pipe) (leaves (Mapping bad_msg)) /\
  container_violates_rule (Mapping bad_msg) = Return true.
Proof.
  assert (Hno : Forall (fun text => last text 0%N <> pipe)
                  (leaves (Mapping bad_msg))).
  { repeat constructor; vm_compute; discriminate. }
  split; [exact Hno |].
  rewrite (walk_is_or_without_trailing_pipe (Mapping bad_msg) Hno).
  reflexivity.
Defined.

Lemma sequence_order_irrelevant_when_total_witness :
  Permutation [Text (py_str "a | b"); Text (py_str "a|b")]
              [Text (py_str "a|b"); Text (py_str "a | b")] /\
  Forall returns
    (leaves (Sequence [Text (py_str "a | b"); Text (py_str "a|b")])) /\
  container_violates_rule
    (Sequence [Text (py_str "a | b"); Text (py_str "a|b")])
  = container_violates_rule
      (Sequence [Text (py_str "a|b"); Text (py_str "a | b")]).
Proof.
  assert (Hperm : Permutation [Text (py_str "a | b"); Text (py_str "a|b")]
                    [Text (py_str "a|b"); Text (py_str "a | b")])
    by apply perm_swap.
  assert (Hret : Forall returns
            (leaves (Sequence [Text (py_str "a | b"); Text (py_str "a|b")]))).
  { repeat constructor; eexists; reflexivity. }
  split; [exact Hperm | split; [exact Hret |]].
  exact (sequence_order_irrelevant_when_total _ _ Hperm Hret).
Defined.

Lemma mapping_order_irrelevant_when_total_witness :
  Permutation
    [(KStr (py_str "msg"), Text (py_str "a | b"));
     (KStr (py_str "loop"), Text (py_str "a|b"))]
    [(KStr (py_str "loop"), Text (py_str "a|b"));
     (KStr (py_str "msg"), Text (py_str "a | b"))] /\
  Forall returns
    (leaves (Mapping [(KStr (py_str "msg"), Text (py_str "a | b"));
                      (KStr (py_str "loop"), Text (py_str "a|b"))])) /\
  container_violates_rule
    (Mapping [(KStr (py_str "msg"), Text (py_str "a | b"));
              (KStr (py_str "loop"), Text (py_str "a|b"))])
  = container_violates_rule
      (Mapping [(KStr (py_str "loop"), Text (py_str "a|b"));
                (KStr (py_str "msg"), Text (py_str "a | b"))]).
Proof.
  assert (Hperm : Permutation
            [(KStr (py_str "msg"), Text (py_str "a | b"));
             (KStr (py_str "loop"), Text (py_str "a|b"))]
            [(KStr (py_str "loop"), Text (py_str "a|b"));
             (KStr (py_str "msg"), Text (py_str "a | b"))])
    by apply perm_swap.
  assert (Hret : Forall returns
            (leaves (Mapping [(KStr (py_str "msg"), Text (py_str "a | b"));
                              (KStr (py_str "loop"), Text (py_str "a|b"))]))).
  { repeat constructor; eexists; reflexivity. }
  split; [exact Hperm | split; [exact Hret |]].
  exact (mapping_order_irrelevant_when_total _ _ Hperm Hret).
Defined.
